(** * A PR review agent: tools, agents and workflow of [task/main.py]

    The program wires six Python functions as tools of three agents and
    hands them to a handoff workflow.  This development embeds the
    functions, the agent records and the workflow record of [main.py],
    and states the properties of the specification over them. *)

From stdpp Require Import gmap strings list fin_maps.
From Stdlib Require Import ZArith.

Local Open Scope Z_scope.
Local Open Scope string_scope.

(** ** Python values

    The tools return dict literals and lists; attributes of the hosting
    library that may be [None] are passed through untouched. *)

#[local] Set Warnings "-register-all".

Inductive value : Type :=
  | VNone
  | VStr (s : string)
  | VInt (n : Z)
  | VList (l : list value)
  | VDict (d : list (string * value)).

(** A dict literal keeps its keys in the order they are written. *)
Definition keys (d : list (string * value)) : list string := d.*1.

Definition of_optional (o : option string) : value :=
  match o with
  | Some s => VStr s
  | None => VNone
  end.

(** ** Exceptions and the error monad *)

Inductive exn : Type :=
  | GithubException (status : Z) (data : string)
  | TypeError (msg : string).

Inductive result (A : Type) : Type :=
  | Ok (a : A)
  | Raise (e : exn).
Arguments Ok {A} a.
Arguments Raise {A} e.

#[global] Instance result_ret : MRet result := λ A a, Ok a.
#[global] Instance result_bind : MBind result := λ A B f m,
  match m with
  | Ok a => f a
  | Raise e => Raise e
  end.

(** ** The hosting library, as far as [main.py] reads it

    Objects are records of the attributes the tools read.  The method
    [get_commits] of a pull request is a further request to the hosting
    service and belongs to [Hosting] below. *)

Module github.

Record NamedUser := { login : string }.

Record Commit_ref := { ref_sha : string }.

Record File := {
  filename : string;
  status : string;
  additions : Z;
  deletions : Z;
  changes : Z;
  patch : option string
}.

Record Commit := {
  sha : string;
  files : list File
}.

Record PullRequest := {
  number : Z;
  user : NamedUser;
  title : string;
  body : option string;
  diff_url : string;
  state : string;
  head : Commit_ref
}.

Record PullRequestReview := { id : Z }.

End github.

(** The repository object [repo]: reads leave it alone, [create_review]
    changes what the hosting service stores.  Each method is a request
    that may fail. *)
Class Hosting (R : Type) := {
  get_pull : R → Z → result github.PullRequest;
  get_commits : R → github.PullRequest → result (list github.Commit);
  get_commit : R → string → result github.Commit;
  create_review :
    R → github.PullRequest → string → string → result (R * github.PullRequestReview)
}.

(** ** Tools *)

Section tools.
Context {R : Type} `{!Hosting R}.

Definition get_pr_details (repo : R) (pr_number : Z) : result value :=
  pull_request ← get_pull repo pr_number;
  commits ← get_commits repo pull_request;
  let commit_SHAs := github.sha <$> commits in
  mret (VDict [
    ("author", VStr (github.login (github.user pull_request)));
    ("title", VStr (github.title pull_request));
    ("body", of_optional (github.body pull_request));
    ("diff_url", VStr (github.diff_url pull_request));
    ("state", VStr (github.state pull_request));
    ("head_sha", VStr (github.ref_sha (github.head pull_request)));
    ("commit_SHAs", VList (VStr <$> commit_SHAs))
  ]).

Definition file_record (f : github.File) : value :=
  VDict [
    ("filename", VStr (github.filename f));
    ("status", VStr (github.status f));
    ("additions", VInt (github.additions f));
    ("deletions", VInt (github.deletions f));
    ("changes", VInt (github.changes f));
    ("patch", of_optional (github.patch f))
  ].

Definition get_commit_details (repo : R) (head_sha : string) : result value :=
  commit ← get_commit repo head_sha;
  mret (VList (file_record <$> github.files commit)).

(** [post_review_to_github] returns the confirmation dict; the changed
    hosting service comes back next to it. *)
Definition post_review_to_github (repo : R) (pr_number : Z) (comment : string)
  : result (R * value) :=
  pr ← get_pull repo pr_number;
  '(repo', review) ← create_review repo pr comment "COMMENT";
  mret (repo', VDict [("status", VStr "success");
                      ("review_id", VInt (github.id review))]).

End tools.

(** The three state tools assign one key of the dict they are given and
    return that same dict: the result below is the dict after the
    assignment, which is also the returned object. *)
Definition add_context_to_state (state : gmap string value) (context : value)
  : gmap string value :=
  <["gathered_contexts" := context]> state.

Definition add_comment_to_state (state : gmap string value) (draft_comment : value)
  : gmap string value :=
  <["draft_comment" := draft_comment]> state.

Definition add_final_review_to_state (state : gmap string value) (final_review : value)
  : gmap string value :=
  <["final_review_comment" := final_review]> state.

(** ** Wrapped tools

    [FunctionTool.from_defaults(fn=..., name=...)] pairs a function with
    the name the agents call it by. *)

Inductive tool_fn : Type :=
  | fn_get_pr_details
  | fn_get_commit_details
  | fn_add_context_to_state
  | fn_add_comment_to_state
  | fn_add_final_review_to_state
  | fn_post_review_to_github.

#[global] Instance tool_fn_eq_dec : EqDecision tool_fn.
Proof. solve_decision. Defined.

Record FunctionTool := {
  fn : tool_fn;
  tool_name : string
}.

#[global] Instance FunctionTool_eq_dec : EqDecision FunctionTool.
Proof. solve_decision. Defined.

Definition get_pr_tool : FunctionTool :=
  {| fn := fn_get_pr_details; tool_name := "get_pr_details" |}.
Definition get_commit_tool : FunctionTool :=
  {| fn := fn_get_commit_details; tool_name := "get_commit_details" |}.
Definition add_context_tool : FunctionTool :=
  {| fn := fn_add_context_to_state; tool_name := "add_context_to_state" |}.
Definition add_comment_tool : FunctionTool :=
  {| fn := fn_add_comment_to_state; tool_name := "add_comment_to_state" |}.
Definition add_final_review_tool : FunctionTool :=
  {| fn := fn_add_final_review_to_state; tool_name := "add_final_review_to_state" |}.
Definition post_review_tool : FunctionTool :=
  {| fn := fn_post_review_to_github; tool_name := "post_review_to_github" |}.

(** ** Agents *)

Definition nl : string := String (Ascii.ascii_of_nat 10) "".

Record FunctionAgent := {
  name : string;
  description : string;
  tools : list FunctionTool;
  system_prompt : string;
  can_handoff_to : list string
}.

Definition context_agent : FunctionAgent := {|
  name := "ContextAgent";
  description :=
    "Gathers all the needed context about the PR: details, changed files, and repo files.";
  tools := [get_pr_tool; get_commit_tool; add_context_tool];
  system_prompt :=
    "You are the context gathering agent. When gathering context, you MUST gather:" +:+ nl +:+
    "- PR details: author, title, body, diff_url, state, head_sha;" +:+ nl +:+
    "- Changed files;" +:+ nl +:+
    "- Any requested repo files." +:+ nl +:+
    "Once finished, you MUST hand control back to the CommentorAgent.";
  can_handoff_to := ["CommentorAgent"]
|}.

Definition commentor_agent : FunctionAgent := {|
  name := "CommentorAgent";
  description :=
    "Uses the context gathered by the context agent to draft a PR review comment.";
  tools := [add_comment_tool];
  system_prompt :=
    "You are the commentor agent that writes review comments for pull requests as a human reviewer would." +:+ nl +:+
    "Ensure to:" +:+ nl +:+
    "- Request PR details, changed files, and repo files from ContextAgent." +:+ nl +:+
    "- Then write a ~200-300 word review in markdown with:" +:+ nl +:+
    "  * What's good about the PR?" +:+ nl +:+
    "  * Did the author follow contribution rules?" +:+ nl +:+
    "  * Are there tests and migrations?" +:+ nl +:+
    "  * Are endpoints documented?" +:+ nl +:+
    "  * Which lines could be improved? Quote them and suggest fixes." +:+ nl +:+
    "- Address the author directly (e.g., 'Thanks for fixing this...')." +:+ nl +:+
    "- You must hand off to the ReviewAndPostingAgent once you are done drafting a review.";
  can_handoff_to := ["ContextAgent"; "ReviewAndPostingAgent"]
|}.

Definition review_and_posting_agent : FunctionAgent := {|
  name := "ReviewAndPostingAgent";
  description :=
    "Reviews the draft comment, refines it if needed, and posts it to GitHub.";
  tools := [add_final_review_tool; post_review_tool];
  system_prompt :=
    "You are the Review and Posting agent. You must use the CommentorAgent to create a review comment." +:+ nl +:+
    "Once a review is generated, you need to run a final check and post it to GitHub." +:+ nl +:+
    "   - The review must:" +:+ nl +:+
    "   - Be a ~200-300 word review in markdown format." +:+ nl +:+
    "   - Specify what is good about the PR." +:+ nl +:+
    "   - Did the author follow ALL contribution rules? What is missing?" +:+ nl +:+
    "   - Are there notes on test availability for new functionality? If there are new models, are there migrations for them?" +:+ nl +:+
    "   - Are there notes on whether new endpoints were documented?" +:+ nl +:+
    "   - Are there suggestions on which lines could be improved upon? Are these lines quoted?" +:+ nl +:+
    "If the review does not meet this criteria, you must ask the CommentorAgent to rewrite it." +:+ nl +:+
    "When you are satisfied, post the review to GitHub.";
  can_handoff_to := ["CommentorAgent"]
|}.

(** ** Workflow *)

Record AgentWorkflow := {
  agents : list FunctionAgent;
  root_agent : string;
  initial_state : gmap string value
}.

Definition workflow_agent : AgentWorkflow := {|
  agents := [context_agent; commentor_agent; review_and_posting_agent];
  root_agent := name review_and_posting_agent;
  initial_state :=
    <["gathered_contexts" := VStr ""]>
      (<["draft_comment" := VStr ""]>
        (<["final_review_comment" := VStr ""]> ∅))
|}.

(** ** Runner: the query [main] builds

    [os.getenv] is a lookup in the process environment; [x or "1"] takes
    the default when [x] is [None] or the empty string. *)

Definition getenv (environ : gmap string string) (key : string) : option string :=
  environ !! key.

Definition or_default (x : option string) (default : string) : string :=
  match x with
  | Some s => if decide (s = "") then default else s
  | None => default
  end.

Definition main_pr_number (environ : gmap string string) : string :=
  or_default (getenv environ "PR_NUMBER") "1".

Definition main_query (environ : gmap string string) : string :=
  let pr_number := main_pr_number environ in
  "Write a review for PR number " +:+ pr_number.

(** ** Calling a wrapped tool

    A tool call names a tool and carries its keyword arguments.  The
    [state] parameter of the three state tools is an argument of the
    call: [call_fn] takes the dict passed for it and gives back the
    dict as the tool leaves it. *)

Inductive kwargs : Type :=
  | kw_pr_number (pr_number : Z)
  | kw_head_sha (head_sha : string)
  | kw_context (context : value)
  | kw_draft_comment (draft_comment : value)
  | kw_final_review (final_review : value)
  | kw_pr_number_comment (pr_number : Z) (comment : string).

Inductive tool_output : Type :=
  | out_value (v : value)
  | out_state (state : gmap string value).

Section call.
Context {R : Type} `{!Hosting R}.

Definition call_fn (f : tool_fn) (kw : kwargs) (state : gmap string value) (repo : R)
  : result (tool_output * gmap string value * R) :=
  match f, kw with
  | fn_get_pr_details, kw_pr_number pr_number =>
      v ← get_pr_details repo pr_number; mret (out_value v, state, repo)
  | fn_get_commit_details, kw_head_sha head_sha =>
      v ← get_commit_details repo head_sha; mret (out_value v, state, repo)
  | fn_add_context_to_state, kw_context context =>
      let state' := add_context_to_state state context in
      mret (out_state state', state', repo)
  | fn_add_comment_to_state, kw_draft_comment draft_comment =>
      let state' := add_comment_to_state state draft_comment in
      mret (out_state state', state', repo)
  | fn_add_final_review_to_state, kw_final_review final_review =>
      let state' := add_final_review_to_state state final_review in
      mret (out_state state', state', repo)
  | fn_post_review_to_github, kw_pr_number_comment pr_number comment =>
      '(repo', v) ← post_review_to_github repo pr_number comment;
      mret (out_value v, state, repo')
  | _, _ => Raise (TypeError "got an unexpected keyword argument")
  end.

End call.

(** ** Two hosting services to run the tools against

    [store] keeps what a hosting service holds.  [fresh_host] creates a
    new review with a new identifier on every [create_review];
    [dedup_host] answers a repeated (pull request, body, event) with the
    review it already has. *)

Record posted := {
  posted_pr : Z;
  posted_body : string;
  posted_event : string;
  posted_id : Z
}.

Record store := {
  pulls : list github.PullRequest;
  pull_commits : list (Z * list github.Commit);
  commits : list github.Commit;
  reviews : list posted
}.

Definition store_get_pull (s : store) (n : Z) : result github.PullRequest :=
  match List.find (λ p, bool_decide (github.number p = n)) (pulls s) with
  | Some p => Ok p
  | None => Raise (GithubException 404 "Not Found")
  end.

Definition store_get_commits (s : store) (pr : github.PullRequest)
  : result (list github.Commit) :=
  match List.find (λ e, bool_decide (e.1 = github.number pr)) (pull_commits s) with
  | Some e => Ok e.2
  | None => Raise (GithubException 404 "Not Found")
  end.

Definition store_get_commit (s : store) (h : string) : result github.Commit :=
  match List.find (λ c, bool_decide (github.sha c = h)) (commits s) with
  | Some c => Ok c
  | None => Raise (GithubException 404 "Not Found")
  end.

Definition store_add_review (s : store) (pr : github.PullRequest) (body event : string)
  : store * github.PullRequestReview :=
  let i := Z.of_nat (S (length (reviews s))) in
  ({| pulls := pulls s; pull_commits := pull_commits s; commits := commits s;
      reviews := reviews s ++ [{| posted_pr := github.number pr; posted_body := body;
                                  posted_event := event; posted_id := i |}] |},
   {| github.id := i |}).

Record fresh_host := { fresh_store : store }.
Record dedup_host := { dedup_store : store }.

#[global] Instance fresh_hosting : Hosting fresh_host := {|
  get_pull r n := store_get_pull (fresh_store r) n;
  get_commits r pr := store_get_commits (fresh_store r) pr;
  get_commit r h := store_get_commit (fresh_store r) h;
  create_review r pr body event :=
    let '(s, review) := store_add_review (fresh_store r) pr body event in
    Ok ({| fresh_store := s |}, review)
|}.

Definition same_post (pr : github.PullRequest) (body event : string) (p : posted) : bool :=
  bool_decide (posted_pr p = github.number pr) &&
  bool_decide (posted_body p = body) &&
  bool_decide (posted_event p = event).

#[global] Instance dedup_hosting : Hosting dedup_host := {|
  get_pull r n := store_get_pull (dedup_store r) n;
  get_commits r pr := store_get_commits (dedup_store r) pr;
  get_commit r h := store_get_commit (dedup_store r) h;
  create_review r pr body event :=
    match List.find (same_post pr body event) (reviews (dedup_store r)) with
    | Some p => Ok (r, {| github.id := posted_id p |})
    | None =>
        let '(s, review) := store_add_review (dedup_store r) pr body event in
        Ok ({| dedup_store := s |}, review)
    end
|}.

Definition pr1 : github.PullRequest := {|
  github.number := 1;
  github.user := {| github.login := "octocat" |};
  github.title := "Fix typo";
  github.body := Some "Fixes a typo in the README";
  github.diff_url := "https://example.org/pull/1.diff";
  github.state := "open";
  github.head := {| github.ref_sha := "c0ffee" |}
|}.

Definition commits1 : list github.Commit :=
  [{| github.sha := "c0ffee";
      github.files := [{| github.filename := "README.md"; github.status := "modified";
                          github.additions := 1; github.deletions := 1;
                          github.changes := 2; github.patch := Some "-teh+the" |};
                       {| github.filename := "logo.png"; github.status := "added";
                          github.additions := 0; github.deletions := 0;
                          github.changes := 0; github.patch := None |}] |}].

Definition store1 : store :=
  {| pulls := [pr1]; pull_commits := [(1, commits1)]; commits := commits1;
     reviews := [] |}.

Definition empty_store : store :=
  {| pulls := []; pull_commits := []; commits := []; reviews := [] |}.

(** A service that has pull request 1 but fails to list its commits. *)
Definition store_no_commits : store :=
  {| pulls := [pr1]; pull_commits := []; commits := []; reviews := [] |}.

(** ** The handoff router

    [main.py] builds the workflow and calls [workflow_agent.run(query)];
    the engine that takes the turns comes with the agent framework. *)

(** Modelled from the spec: the error taxonomy of the router and the
    registry (section 7); [main.py] defines no exception class. *)
Inductive error : Type :=
  | UnknownFieldError (field : string)
  | DuplicateToolError (tool : string)
  | UnknownToolError (tool : string)
  | ToolExecutionError (tool : string) (cause : exn)
  | CapabilityViolationError (agent tool : string)
  | InvalidHandoffError (agent target : string)
  | ProtocolViolationError (agent : string)
  | TurnLimitExceededError (turns : nat).

(** Modelled from the spec: a tool-call request of a turn (section 3),
    the tool's name and its keyword arguments.  The [state] parameter
    of the state tools is an argument like any other: [call_state] is
    the dict the request passes for it (the other tools have no such
    parameter and do not look at it). *)
Record ToolCall := {
  call_name : string;
  call_state : gmap string value;
  call_kwargs : kwargs
}.

(** Modelled from the spec: the event stream of the runner (section 4.5). *)
Inductive Event : Type :=
  | AgentSwitched (agent : string)
  | ToolInvoked (tool : string) (args : kwargs)
  | ToolCompleted (tool : string) (out : tool_output)
  | RunFinished (output : string)
  | RunFailed (e : error).

(** Modelled from the spec: a turn (section 3), the decision value an
    agent produces: tool calls in request order, an optional handoff
    target and an optional terminal text. *)
Record Turn := {
  tool_calls : list ToolCall;
  handoff : option string;
  terminal_output : option string
}.

(** Modelled from the spec: the run context (section 3). *)
Record RunContext := {
  current_agent : string;
  shared_state : gmap string value;
  turn_counter : nat;
  event_log : list Event
}.

(** Modelled from the spec: the router finds the current agent among the
    configured agents, and a requested tool among the agent's own tools,
    by name (sections 3 and 4.3). *)
Definition find_agent (wf : AgentWorkflow) (n : string) : option FunctionAgent :=
  List.find (λ a, bool_decide (name a = n)) (agents wf).

Definition find_tool (a : FunctionAgent) (n : string) : option FunctionTool :=
  List.find (λ t, bool_decide (tool_name t = n)) (tools a).

Section router.
Context {R : Type} `{!Hosting R}.

(** The workflow, the configured ceiling on the turn counter, and the
    language model: any function from the acting agent and the run
    context (which holds the state, the counter and the log of all
    earlier tool results) to a turn. *)
Variable wf : AgentWorkflow.
Variable ceiling : nat.
Variable llm : FunctionAgent → RunContext → Turn.

(** Modelled from the spec: what one turn leads to (section 4.4): the
    run goes on, is terminated with an output, or has failed. *)
Inductive outcome : Type :=
  | Continue (ctx : RunContext) (repo : R)
  | Terminated (output : string) (state : gmap string value)
               (log : list Event) (repo : R)
  | Failed (e : error) (ctx : RunContext) (repo : R).

(** Modelled from the spec: rule 2 of the router (section 4.4) with the
    capability check of section 4.3 and the wrapping of section 4.2.
    The calls run in request order, each on the arguments of its
    request.  A state tool assigns a key of the dict it is passed and
    returns that dict, which goes to the log as the output of the call;
    nothing in [main.py] ties that dict to the shared state of the run,
    so the calls leave the shared state alone.  A call outside the
    agent's tools is a [CapabilityViolationError] and runs nothing; the
    first failing call stops the turn with a [ToolExecutionError] around
    its cause. *)
Fixpoint apply_calls (a : FunctionAgent) (calls : list ToolCall)
    (log : list Event) (repo : R)
  : error * R + list Event * R :=
  match calls with
  | [] => inr (log, repo)
  | c :: rest =>
      match find_tool a (call_name c) with
      | None => inl (CapabilityViolationError (name a) (call_name c), repo)
      | Some t =>
          match call_fn (fn t) (call_kwargs c) (call_state c) repo with
          | Raise e => inl (ToolExecutionError (call_name c) e, repo)
          | Ok (out, _, repo') =>
              apply_calls a rest
                (log ++ [ToolInvoked (call_name c) (call_kwargs c);
                         ToolCompleted (call_name c) out])
                repo'
          end
      end
  end.

(** Modelled from the spec: the transition rule of the router (section
    4.4, rules 1 to 5, and the forced termination once the counter
    exceeds the ceiling).  A failed turn leaves the run context as of
    the last completed turn (section 7); what the hosting service
    already stored stays stored. *)
Definition step (ctx : RunContext) (repo : R) : outcome :=
  match find_agent wf (current_agent ctx) with
  | None => Failed (InvalidHandoffError (current_agent ctx) (current_agent ctx)) ctx repo
  | Some a =>
      let turn := llm a ctx in
      match apply_calls a (tool_calls turn) (event_log ctx) repo with
      | inl (e, repo') => Failed e ctx repo'
      | inr (log', repo') =>
          match handoff turn with
          | Some target =>
              if bool_decide (target ∈ can_handoff_to a) then
                let ctx' := {| current_agent := target;
                               shared_state := shared_state ctx;
                               turn_counter := S (turn_counter ctx);
                               event_log := log' ++ [AgentSwitched target] |} in
                if bool_decide (ceiling < S (turn_counter ctx))%nat
                then Failed (TurnLimitExceededError (S (turn_counter ctx))) ctx' repo'
                else Continue ctx' repo'
              else Failed (InvalidHandoffError (name a) target) ctx repo'
          | None =>
              match terminal_output turn with
              | Some output =>
                  Terminated output (shared_state ctx) (log' ++ [RunFinished output]) repo'
              | None => Failed (ProtocolViolationError (name a)) ctx repo'
              end
          end
      end
  end.

(** Modelled from the spec: the run context at run start (sections 3
    and 4.4): the root agent is current, the state holds the declared
    defaults, the counter is zero. *)
Definition init_ctx : RunContext := {|
  current_agent := root_agent wf;
  shared_state := initial_state wf;
  turn_counter := 0;
  event_log := [AgentSwitched (root_agent wf)]
|}.

(** Modelled from the spec: how a run ends (section 3): success with the
    recorded output, or abort with the error surfaced. *)
Inductive final : Type :=
  | Finished (output : string) (state : gmap string value)
             (log : list Event) (repo : R)
  | Aborted (e : error) (ctx : RunContext) (repo : R).

(** Modelled from the spec: the runner (section 4.5) takes turns until
    the router terminates or fails; [None] is a run cut short by the
    fuel, not by the router. *)
Fixpoint run_turns (fuel : nat) (ctx : RunContext) (repo : R) : option final :=
  match fuel with
  | O => None
  | S fuel' =>
      match step ctx repo with
      | Continue ctx' repo' => run_turns fuel' ctx' repo'
      | Terminated output state log repo' => Some (Finished output state log repo')
      | Failed e ctx' repo' => Some (Aborted e ctx' repo')
      end
  end.

(** Modelled from the spec: the contexts a run passes through, from the
    initial one by turns after which the run goes on. *)
Inductive reachable : RunContext → R → R → Prop :=
  | reachable_init repo : reachable init_ctx repo repo
  | reachable_step ctx repo0 repo ctx' repo' :
      reachable ctx repo0 repo →
      step ctx repo = Continue ctx' repo' →
      reachable ctx' repo0 repo'.

End router.

Arguments Continue {R} ctx repo.
Arguments Terminated {R} output state log repo.
Arguments Failed {R} e ctx repo.
Arguments Finished {R} output state log repo.
Arguments Aborted {R} e ctx repo.

(** Modelled from the spec: [workflow_agent.run(query)], the run of the
    configured workflow under a ceiling; [main.py] passes none, the
    ceiling is a parameter here.  The query only reaches the language
    model.  Fuel [S ceiling] is enough for every run, as proved
    below. *)
Definition run {R : Type} `{!Hosting R} (ceiling : nat)
    (llm : string → FunctionAgent → RunContext → Turn) (query : string) (repo : R)
  : option final :=
  run_turns workflow_agent ceiling (llm query) (S ceiling)
    (init_ctx workflow_agent) repo.

(** ** The handoff graph of a workflow

    [hands_to wf n] holds of the agent names control can reach from the
    root by following the [can_handoff_to] lists of configured agents. *)

Definition agent_names (wf : AgentWorkflow) : list string := name <$> agents wf.

Inductive hands_to (wf : AgentWorkflow) : string → Prop :=
  | hands_to_root : hands_to wf (root_agent wf)
  | hands_to_next a target :
      hands_to wf (name a) →
      a ∈ agents wf →
      target ∈ can_handoff_to a →
      hands_to wf target.

(** Every declared handoff target is a configured agent (checked by
    evaluation on a concrete workflow). *)
Definition targets_configured (wf : AgentWorkflow) : bool :=
  forallb (λ a, forallb (λ t, bool_decide (t ∈ agent_names wf)) (can_handoff_to a))
          (agents wf).

(** The read tools of [main.py]. *)
Definition is_read_fn (f : tool_fn) : bool :=
  match f with
  | fn_get_pr_details | fn_get_commit_details => true
  | _ => false
  end.

(** A hosting service deduplicates when a repeated [create_review] with
    the same arguments answers with the review it created and stores
    nothing more, and creating a review does not disturb the pull
    requests. *)
Definition deduplicates (R : Type) `{!Hosting R} : Prop :=
  ∀ (r r' : R) pr body event review,
    create_review r pr body event = Ok (r', review) →
    create_review r' pr body event = Ok (r', review) ∧
    ∀ n, get_pull r' n = get_pull r n.

(** ** Language models for the examples *)

Definition no_calls_handoff (target : string) : Turn :=
  {| tool_calls := []; handoff := Some target; terminal_output := None |}.

(** The drafting and the reviewing agent hand control to each other and
    never finish. *)
Definition llm_ping_pong (query : string) (a : FunctionAgent) (ctx : RunContext) : Turn :=
  if bool_decide (name a = "CommentorAgent")
  then no_calls_handoff "ReviewAndPostingAgent"
  else no_calls_handoff "CommentorAgent".


(** As above, but the drafting agent first calls add_comment_to_state
    with a draft, passing a copy of the shared state it is shown as the
    [state] argument, and then asks for context. *)
Definition llm_draft_first (query : string) (a : FunctionAgent) (ctx : RunContext) : Turn :=
  if bool_decide (name a = "ReviewAndPostingAgent") then no_calls_handoff "CommentorAgent"
  else if bool_decide (name a = "CommentorAgent") then
    {| tool_calls := [{| call_name := "add_comment_to_state";
                         call_state := shared_state ctx;
                         call_kwargs := kw_draft_comment (VStr "Thanks for the fix") |}];
       handoff := Some "ContextAgent"; terminal_output := None |}
  else {| tool_calls := [{| call_name := "get_pr_details"; call_state := ∅;
                            call_kwargs := kw_pr_number 1 |}];
          handoff := Some "CommentorAgent"; terminal_output := None |}.

Definition host1 : fresh_host := {| fresh_store := store1 |}.
Definition host1_dedup : dedup_host := {| dedup_store := store1 |}.
Definition host_empty : fresh_host := {| fresh_store := empty_store |}.

(** ** The wrapped tools, in the order [main.py] wraps them *)

Definition tool_registry : list FunctionTool :=
  [get_pr_tool; get_commit_tool; add_context_tool;
   add_comment_tool; add_final_review_tool; post_review_tool].

(** ** Sequences of state-tool calls

    One call of a state tool, and a list of them applied one after
    another to the same dict. *)

Inductive state_write : Type :=
  | write_context (context : value)
  | write_comment (draft_comment : value)
  | write_final_review (final_review : value).

Definition written_key (w : state_write) : string :=
  match w with
  | write_context _ => "gathered_contexts"
  | write_comment _ => "draft_comment"
  | write_final_review _ => "final_review_comment"
  end.

Definition written_value (w : state_write) : value :=
  match w with
  | write_context v | write_comment v | write_final_review v => v
  end.

Definition do_write (state : gmap string value) (w : state_write) : gmap string value :=
  match w with
  | write_context context => add_context_to_state state context
  | write_comment draft_comment => add_comment_to_state state draft_comment
  | write_final_review final_review => add_final_review_to_state state final_review
  end.

Definition do_writes (state : gmap string value) (ws : list state_write)
  : gmap string value :=
  foldl do_write state ws.

(** The last value a list of calls writes under key [k], if any. *)
Definition last_written (k : string) (ws : list state_write) : option value :=
  written_value <$> last (filter (λ w, written_key w = k) ws).

(** ** The runner's event loop

    [main] walks the event stream of the run, remembers the agent it
    last announced and prints one line per [print] call.  An event may
    carry [current_agent_name]; the loop tells three classes of events
    apart by [isinstance], taken here as unrelated classes. *)

Module stream.

Record ToolSelection := {
  tool_name : string;
  tool_kwargs : list (string * value)
}.

Inductive event_class : Type :=
  | AgentOutput (response_content : option string) (tool_calls : list ToolSelection)
  | ToolCall (tool_name : string) (tool_kwargs : list (string * value))
  | ToolCallResult (tool_output : value)
  | Other.

Record event := {
  current_agent_name : option string;
  class_of : event_class
}.

(** What the loop prints, one constructor per [print] call. *)
Inductive line : Type :=
  | current_agent_line (agent : string)
  | final_response_line (content : string)
  | selected_tools_line (tools : list string)
  | calling_tool_line (tool : string) (args : list (string * value))
  | tool_output_line (out : value).

End stream.

(** The branches below the first [if]: what an event prints when it does
    not announce a new agent. *)
Definition print_event (ev : stream.event) : list stream.line :=
  match stream.class_of ev with
  | stream.AgentOutput content calls =>
      ((match content with
        | Some c => if decide (c = "") then [] else [stream.final_response_line c]
        | None => []
        end) ++
       (match calls with
        | [] => []
        | _ :: _ => [stream.selected_tools_line (stream.tool_name <$> calls)]
        end))%list
  | stream.ToolCall n kw => [stream.calling_tool_line n kw]
  | stream.ToolCallResult out => [stream.tool_output_line out]
  | stream.Other => []
  end.

(** One pass of the loop body: the agent remembered afterwards and the
    lines printed. *)
Definition handle_event (current_agent : option string) (ev : stream.event)
  : option string * list stream.line :=
  match stream.current_agent_name ev with
  | Some n =>
      if decide (Some n = current_agent)
      then (current_agent, print_event ev)
      else (Some n, [stream.current_agent_line n])
  | None => (current_agent, print_event ev)
  end.

Fixpoint handle_events (current_agent : option string) (events : list stream.event)
  : option string * list stream.line :=
  match events with
  | [] => (current_agent, [])
  | ev :: rest =>
      let '(current_agent', printed) := handle_event current_agent ev in
      let '(final_agent, printed') := handle_events current_agent' rest in
      (final_agent, (printed ++ printed')%list)
  end.

(** The loop of [main]: [current_agent] starts as [None]. *)
Definition main_loop (events : list stream.event) : option string * list stream.line :=
  handle_events None events.

(** The agents announced by a list of printed lines, in order. *)
Definition announced (printed : list stream.line) : list string :=
  omap (λ l, match l with stream.current_agent_line n => Some n | _ => None end) printed.

(** No two neighbours of a list are equal. *)
Fixpoint no_repeat (l : list string) : Prop :=
  match l with
  | a :: (b :: _) as rest => a ≠ b ∧ no_repeat rest
  | _ => True
  end.

Definition output_event (agent : string) (content : string) : stream.event :=
  {| stream.current_agent_name := Some agent;
     stream.class_of := stream.AgentOutput (Some content) [] |}.

(** A line the loop may print: a response or a tool list is never empty. *)
Definition printable (l : stream.line) : Prop :=
  match l with
  | stream.final_response_line content => content ≠ ""
  | stream.selected_tools_line tools => tools ≠ []
  | _ => True
  end.

(** The confirmation record for a created review, and the entry a
    COMMENT review leaves in a [store]. *)
Definition confirmation (review : github.PullRequestReview) : value :=
  VDict [("status", VStr "success"); ("review_id", VInt (github.id review))].

Definition posted_comment (pr_number : Z) (comment : string) (i : Z) : posted :=
  {| posted_pr := pr_number; posted_body := comment;
     posted_event := "COMMENT"; posted_id := i |}.

(** * Properties *)

(** ** The read tools *)

Lemma bind_Ok_inv {A B} (m : result A) (f : A → result B) (b : B) :
  m ≫= f = Ok b → ∃ a, m = Ok a ∧ f a = Ok b.
Proof. destruct m as [a|e]; simpl; [eauto | discriminate]. Qed.

Lemma bind_Raise_iff {A B} (m : result A) (f : A → result B) (e : exn) :
  m ≫= f = Raise e ↔ m = Raise e ∨ ∃ a, m = Ok a ∧ f a = Raise e.
Proof.
  destruct m as [a|e']; simpl; split.
  - intros Hf. right. by exists a.
  - intros [?|(a' & [= <-] & Hf)]; [discriminate | exact Hf].
  - intros [= ->]. by left.
  - intros [[= ->]|(a' & ? & _)]; [reflexivity | discriminate].
Qed.

(** C4: on success [get_pr_details] returns a record with exactly the
    fields author, title, body, diff_url, state, head_sha and
    commit_SHAs, holding the login of the pull request's user, its
    title, its body text (None when it has none), its diff url, its
    state, the sha of its head and the sha of each of its commits, in
    order; on success [get_commit_details] returns one record per
    changed file of the commit, in order, each with exactly the fields
    filename, status, additions, deletions, changes and patch, holding
    that file's name, status, three line counts and patch text (None
    when it has none). *)
Theorem read_tools_return_records {R : Type} `{!Hosting R} (repo : R) :
  (∀ pr_number v,
     get_pr_details repo pr_number = Ok v →
     ∃ pr commits d,
       get_pull repo pr_number = Ok pr ∧ get_commits repo pr = Ok commits ∧
       v = VDict d ∧
       keys d = ["author"; "title"; "body"; "diff_url"; "state"; "head_sha"; "commit_SHAs"] ∧
       d.*2 = [VStr (github.login (github.user pr)); VStr (github.title pr);
               match github.body pr with Some text => VStr text | None => VNone end;
               VStr (github.diff_url pr);
               VStr (github.state pr); VStr (github.ref_sha (github.head pr));
               VList ((λ c, VStr (github.sha c)) <$> commits)]) ∧
  (∀ head_sha v,
     get_commit_details repo head_sha = Ok v →
     ∃ commit l,
       get_commit repo head_sha = Ok commit ∧ v = VList l ∧
       length l = length (github.files commit) ∧
       ∀ i f, github.files commit !! i = Some f →
         ∃ d, l !! i = Some (VDict d) ∧
           keys d = ["filename"; "status"; "additions"; "deletions"; "changes"; "patch"] ∧
           d.*2 = [VStr (github.filename f); VStr (github.status f);
                   VInt (github.additions f); VInt (github.deletions f);
                   VInt (github.changes f);
                   match github.patch f with Some text => VStr text | None => VNone end]).
Proof.
  split.
  - intros pr_number v Hv. unfold get_pr_details in Hv.
    apply bind_Ok_inv in Hv as (pr & Hpr & Hv).
    apply bind_Ok_inv in Hv as (commits & Hcommits & Hv). injection Hv as <-.
    eexists pr, commits, _. split; [exact Hpr|]. split; [exact Hcommits|].
    split; [reflexivity|]. split; [reflexivity|]. simpl.
    rewrite <- list_fmap_compose. by destruct (github.body pr).
  - intros head_sha v Hv. unfold get_commit_details in Hv.
    apply bind_Ok_inv in Hv as (commit & Hc & Hv). injection Hv as <-.
    eexists commit, _. split; [exact Hc|]. split; [reflexivity|].
    split; [by rewrite length_fmap|].
    intros i f Hf. eexists. rewrite list_lookup_fmap, Hf. simpl.
    split; [reflexivity|]. split; [reflexivity|]. by destruct (github.patch f).
Qed.

Lemma read_tools_return_records_witness :
  get_pr_details host1 1 =
    Ok (VDict [("author", VStr "octocat"); ("title", VStr "Fix typo");
               ("body", VStr "Fixes a typo in the README");
               ("diff_url", VStr "https://example.org/pull/1.diff");
               ("state", VStr "open"); ("head_sha", VStr "c0ffee");
               ("commit_SHAs", VList [VStr "c0ffee"])]) ∧
  (∃ l, get_commit_details host1 "c0ffee" = Ok (VList l) ∧
        l !! 0%nat =
          Some (VDict [("filename", VStr "README.md"); ("status", VStr "modified");
                       ("additions", VInt 1); ("deletions", VInt 1);
                       ("changes", VInt 2); ("patch", VStr "-teh+the")]) ∧
        l !! 1%nat =
          Some (VDict [("filename", VStr "logo.png"); ("status", VStr "added");
                       ("additions", VInt 0); ("deletions", VInt 0);
                       ("changes", VInt 0); ("patch", VNone)])).
Proof.
  destruct (read_tools_return_records host1) as [Hpr Hcommit]. split.
  - destruct (Hpr 1 _ eq_refl) as (pr & commits & d & Hget & Hcs & Hv & _).
    reflexivity.
  - destruct (Hcommit "c0ffee" _ eq_refl) as (c & l & Hget & Hv & _).
    exists l. injection Hv as <-. split; [reflexivity|]. split; reflexivity.
Defined.

(** ** The posting tool *)

(** C5: on success [post_review_to_github] returns a confirmation record
    with exactly the fields status and review_id: status is "success"
    and review_id is the identifier of the review the hosting service
    created for a COMMENT review with the given body on that pull
    request. *)
Theorem post_review_returns_confirmation {R : Type} `{!Hosting R}
    (repo repo' : R) (pr_number : Z) (comment : string) (v : value) :
  post_review_to_github repo pr_number comment = Ok (repo', v) →
  ∃ pr review,
    get_pull repo pr_number = Ok pr ∧
    create_review repo pr comment "COMMENT" = Ok (repo', review) ∧
    v = VDict [("status", VStr "success"); ("review_id", VInt (github.id review))].
Proof.
  unfold post_review_to_github. intros Hv.
  apply bind_Ok_inv in Hv as (pr & Hpr & Hv).
  apply bind_Ok_inv in Hv as ([r review] & Hcreate & Hv).
  injection Hv as <- <-. by exists pr, review.
Qed.

Lemma post_review_returns_confirmation_witness :
  ∃ repo' pr review,
    get_pull host1 1 = Ok pr ∧
    create_review host1 pr "Looks good" "COMMENT" = Ok (repo', review) ∧
    VDict [("status", VStr "success"); ("review_id", VInt 1)] =
    VDict [("status", VStr "success"); ("review_id", VInt (github.id review))].
Proof.
  eexists. exact (post_review_returns_confirmation host1 _ 1 "Looks good" _ eq_refl).
Defined.

(** ** The state tools *)

Lemma call_fn_dom {R : Type} `{!Hosting R} (f : tool_fn) kw
    (state state' : gmap string value) (repo repo' : R) out :
  call_fn f kw state repo = Ok (out, state', repo') →
  dom state ⊆ dom state'.
Proof.
  intros Hcall. destruct f, kw; simpl in Hcall; try discriminate.
  - apply bind_Ok_inv in Hcall as (v & _ & Hv). by injection Hv as _ <- _.
  - apply bind_Ok_inv in Hcall as (v & _ & Hv). by injection Hv as _ <- _.
  - injection Hcall as _ <- _. unfold add_context_to_state.
    rewrite dom_insert_L. set_solver.
  - injection Hcall as _ <- _. unfold add_comment_to_state.
    rewrite dom_insert_L. set_solver.
  - injection Hcall as _ <- _. unfold add_final_review_to_state.
    rewrite dom_insert_L. set_solver.
  - apply bind_Ok_inv in Hcall as ([r v] & _ & Hv). by injection Hv as _ <- _.
Qed.

(** C8: each state tool assigns its own key ([add_context_to_state]
    gathered_contexts, [add_comment_to_state] draft_comment,
    [add_final_review_to_state] final_review_comment) to the given
    value, leaves the value under every other key as it was, and keeps
    every key the state had; and no call of any of the six tools removes
    a key from the state. *)
Theorem state_tools_overwrite_one_field (state : gmap string value) (v : value) :
  (add_context_to_state state v !! "gathered_contexts" = Some v ∧
   (∀ k, k ≠ "gathered_contexts" → add_context_to_state state v !! k = state !! k) ∧
   dom state ⊆ dom (add_context_to_state state v)) ∧
  (add_comment_to_state state v !! "draft_comment" = Some v ∧
   (∀ k, k ≠ "draft_comment" → add_comment_to_state state v !! k = state !! k) ∧
   dom state ⊆ dom (add_comment_to_state state v)) ∧
  (add_final_review_to_state state v !! "final_review_comment" = Some v ∧
   (∀ k, k ≠ "final_review_comment" →
      add_final_review_to_state state v !! k = state !! k) ∧
   dom state ⊆ dom (add_final_review_to_state state v)) ∧
  (∀ (R : Type) (H : Hosting R) f kw (repo repo' : R) out state',
     call_fn f kw state repo = Ok (out, state', repo') → dom state ⊆ dom state').
Proof.
  split; [|split; [|split]];
    [| | |intros R H f kw repo repo' out state'; apply call_fn_dom].
  all: unfold add_context_to_state, add_comment_to_state, add_final_review_to_state.
  all: repeat split;
    first [ apply lookup_insert_eq
          | intros k Hk; by apply lookup_insert_ne
          | rewrite dom_insert_L; set_solver ].
Qed.

(** ** The runner's query *)

(** C10: with PR_NUMBER unset or empty the runner takes "1" and asks for
    a review of PR number 1; any other value is put into the query as
    the string it is, numeric or not. *)
Theorem main_defaults_pr_number (environ : gmap string string) :
  getenv environ "PR_NUMBER" = None ∨ getenv environ "PR_NUMBER" = Some "" →
  main_pr_number environ = "1" ∧
  main_query environ = "Write a review for PR number 1" ∧
  ∀ s, s ≠ "" →
    main_pr_number (<["PR_NUMBER" := s]> environ) = s ∧
    main_query (<["PR_NUMBER" := s]> environ) = "Write a review for PR number " +:+ s.
Proof.
  intros Hunset.
  assert (main_pr_number environ = "1") as Hpr.
  { unfold main_pr_number. by destruct Hunset as [-> | ->]. }
  split; [exact Hpr|]. split; [unfold main_query; by rewrite Hpr|].
  intros s Hs.
  assert (main_pr_number (<["PR_NUMBER" := s]> environ) = s) as Hset.
  { unfold main_pr_number, getenv. rewrite lookup_insert_eq. simpl.
    by rewrite decide_False. }
  split; [exact Hset|]. unfold main_query. by rewrite Hset.
Qed.

Lemma main_defaults_pr_number_witness :
  main_pr_number ∅ = "1" ∧
  main_query ∅ = "Write a review for PR number 1" ∧
  ∀ s, s ≠ "" →
    main_pr_number (<["PR_NUMBER" := s]> ∅) = s ∧
    main_query (<["PR_NUMBER" := s]> ∅) = "Write a review for PR number " +:+ s.
Proof. apply (main_defaults_pr_number ∅). left. reflexivity. Defined.

Example main_query_not_numeric :
  main_query {["PR_NUMBER" := "twelve"]} = "Write a review for PR number twelve".
Proof. reflexivity. Qed.

Example main_query_empty :
  main_query {["PR_NUMBER" := ""]} = "Write a review for PR number 1".
Proof. reflexivity. Qed.

(** ** Agents and their capabilities *)

(** C7: the drafting agent has exactly one tool, the one that saves the
    draft text ([add_comment_to_state], which writes draft_comment), and
    may hand off to the context agent or to the reviewing agent; the
    review-and-posting agent has exactly the tool that saves the final
    review ([add_final_review_to_state]) and the posting tool
    ([post_review_to_github]), and may hand off to the drafting agent
    only. *)
Theorem capability_sets_match_roles :
  (tools commentor_agent = [add_comment_tool] ∧
   fn add_comment_tool = fn_add_comment_to_state ∧
   tool_name add_comment_tool = "add_comment_to_state" ∧
   can_handoff_to commentor_agent =
     [name context_agent; name review_and_posting_agent]) ∧
  (tools review_and_posting_agent = [add_final_review_tool; post_review_tool] ∧
   fn add_final_review_tool = fn_add_final_review_to_state ∧
   tool_name add_final_review_tool = "add_final_review_to_state" ∧
   fn post_review_tool = fn_post_review_to_github ∧
   tool_name post_review_tool = "post_review_to_github" ∧
   can_handoff_to review_and_posting_agent = [name commentor_agent]) ∧
  (∀ (R : Type) (H : Hosting R) (state : gmap string value) (repo : R) v,
     call_fn (fn add_comment_tool) (kw_draft_comment v) state repo =
       Ok (out_state (add_comment_to_state state v), add_comment_to_state state v, repo) ∧
     call_fn (fn add_final_review_tool) (kw_final_review v) state repo =
       Ok (out_state (add_final_review_to_state state v),
           add_final_review_to_state state v, repo)) ∧
  (∀ (R : Type) (H : Hosting R) (state : gmap string value) (repo : R) n c,
     call_fn (fn post_review_tool) (kw_pr_number_comment n c) state repo =
       '(repo', v) ← post_review_to_github repo n c; mret (out_value v, state, repo')).
Proof. repeat split. Qed.

(** ** The handoff graph *)

Lemma targets_configured_sound (wf : AgentWorkflow) :
  targets_configured wf = true →
  ∀ a target, a ∈ agents wf → target ∈ can_handoff_to a → target ∈ agent_names wf.
Proof.
  unfold targets_configured. rewrite forallb_forall.
  intros Hall a target Ha Ht. apply list_elem_of_In in Ha.
  specialize (Hall a Ha). rewrite forallb_forall in Hall.
  apply list_elem_of_In in Ht. specialize (Hall target Ht).
  by apply bool_decide_eq_true in Hall.
Qed.

Lemma workflow_targets_configured : targets_configured workflow_agent = true.
Proof. reflexivity. Qed.

Lemma workflow_root_configured : root_agent workflow_agent ∈ agent_names workflow_agent.
Proof. apply (bool_decide_unpack _). exact I. Qed.

(** C6: every handoff target an agent of the workflow declares is the
    name of an agent of the workflow: ContextAgent declares only
    CommentorAgent, CommentorAgent only ContextAgent and
    ReviewAndPostingAgent, ReviewAndPostingAgent only CommentorAgent;
    so following handoffs from the root never leaves the set of
    the three configured agents. *)
Theorem handoff_targets_are_configured :
  agent_names workflow_agent = ["ContextAgent"; "CommentorAgent"; "ReviewAndPostingAgent"] ∧
  can_handoff_to context_agent = ["CommentorAgent"] ∧
  can_handoff_to commentor_agent = ["ContextAgent"; "ReviewAndPostingAgent"] ∧
  can_handoff_to review_and_posting_agent = ["CommentorAgent"] ∧
  (∀ a target,
     a ∈ agents workflow_agent → target ∈ can_handoff_to a →
     target ∈ agent_names workflow_agent) ∧
  (∀ n, hands_to workflow_agent n → n ∈ agent_names workflow_agent).
Proof.
  repeat split.
  - apply targets_configured_sound, workflow_targets_configured.
  - intros n Hn. induction Hn as [|a target _ _ Ha Ht].
    + apply workflow_root_configured.
    + by apply (targets_configured_sound _ workflow_targets_configured a).
Qed.

(** ** The root agent *)

Lemma call_fn_frame {R : Type} `{!Hosting R} (f : tool_fn) kw
    (state state' : gmap string value) (repo repo' : R) out (k : string) :
  call_fn f kw state repo = Ok (out, state', repo') →
  (f = fn_add_context_to_state → k ≠ "gathered_contexts") →
  (f = fn_add_comment_to_state → k ≠ "draft_comment") →
  (f = fn_add_final_review_to_state → k ≠ "final_review_comment") →
  state' !! k = state !! k.
Proof.
  intros Hcall Hctx Hdraft Hfinal.
  destruct f, kw; simpl in Hcall; try discriminate.
  - apply bind_Ok_inv in Hcall as (v & _ & Hv). by injection Hv as _ <- _.
  - apply bind_Ok_inv in Hcall as (v & _ & Hv). by injection Hv as _ <- _.
  - injection Hcall as _ <- _. apply lookup_insert_ne. by intros <-; apply Hctx.
  - injection Hcall as _ <- _. apply lookup_insert_ne. by intros <-; apply Hdraft.
  - injection Hcall as _ <- _. apply lookup_insert_ne. by intros <-; apply Hfinal.
  - apply bind_Ok_inv in Hcall as ([r v] & _ & Hv). by injection Hv as _ <- _.
Qed.

(** C9: the root agent of the workflow is ReviewAndPostingAgent, not the
    context agent.  The state starts with gathered_contexts and
    draft_comment empty, and no tool of the root agent is a read tool or
    changes either field, while its only handoff target is
    CommentorAgent: context and draft can only appear after the root
    agent has delegated. *)
Theorem root_agent_is_review_and_posting :
  root_agent workflow_agent = "ReviewAndPostingAgent" ∧
  root_agent workflow_agent ≠ name context_agent ∧
  find_agent workflow_agent (root_agent workflow_agent) = Some review_and_posting_agent ∧
  can_handoff_to review_and_posting_agent = ["CommentorAgent"] ∧
  initial_state workflow_agent !! "gathered_contexts" = Some (VStr "") ∧
  initial_state workflow_agent !! "draft_comment" = Some (VStr "") ∧
  (∀ t, t ∈ tools review_and_posting_agent →
     is_read_fn (fn t) = false ∧
     ∀ (R : Type) (H : Hosting R) kw (state state' : gmap string value)
       (repo repo' : R) out,
       call_fn (fn t) kw state repo = Ok (out, state', repo') →
       state' !! "gathered_contexts" = state !! "gathered_contexts" ∧
       state' !! "draft_comment" = state !! "draft_comment").
Proof.
  split; [reflexivity|]. split; [discriminate|]. split; [reflexivity|].
  split; [reflexivity|]. split; [reflexivity|]. split; [reflexivity|].
  intros t Ht. simpl in Ht. rewrite !elem_of_cons in Ht.
  destruct Ht as [-> | [-> | Ht]]; [| |by apply elem_of_nil in Ht].
  - split; [reflexivity|]. intros R H kw state state' repo repo' out Hcall.
    split; eapply call_fn_frame; eauto; simpl; intros; discriminate.
  - split; [reflexivity|]. intros R H kw state state' repo repo' out Hcall.
    split; eapply call_fn_frame; eauto; simpl; intros; discriminate.
Qed.

(** ** Posting the same review twice *)

Lemma find_app_None {A} (f : A → bool) (l1 l2 : list A) :
  List.find f l1 = None → List.find f (l1 ++ l2) = List.find f l2.
Proof.
  induction l1 as [|x l1 IH]; simpl; [done|].
  destruct (f x); [discriminate | exact IH].
Qed.

Lemma dedup_host_deduplicates : deduplicates dedup_host.
Proof.
  intros r r' pr body event review. simpl.
  destruct (List.find (same_post pr body event) (reviews (dedup_store r)))
    as [p|] eqn:Hfind.
  - intros [= <- <-]. by rewrite Hfind.
  - intros [= <- <-]. simpl. split; [|done].
    rewrite find_app_None by exact Hfind. simpl.
    unfold same_post. simpl. by rewrite !bool_decide_eq_true_2.
Qed.

(** C2, as stated, fails on a hosting service that creates a review per
    call: the tool has no guard of its own, so posting the same body to
    pull request 1 twice succeeds twice, returns the identifiers 1 and
    2, and leaves two reviews stored. *)
Lemma post_twice_posts_two_reviews :
  ∃ r1 r2,
    post_review_to_github host1 1 "Looks good" =
      Ok (r1, VDict [("status", VStr "success"); ("review_id", VInt 1)]) ∧
    post_review_to_github r1 1 "Looks good" =
      Ok (r2, VDict [("status", VStr "success"); ("review_id", VInt 2)]) ∧
    reviews (fresh_store r2) =
      [{| posted_pr := 1; posted_body := "Looks good";
          posted_event := "COMMENT"; posted_id := 1 |};
       {| posted_pr := 1; posted_body := "Looks good";
          posted_event := "COMMENT"; posted_id := 2 |}].
Proof. eexists _, _. split; [reflexivity|]. split; reflexivity. Qed.

Lemma next_review_id {A} (l : list A) (x : A) :
  Z.of_nat (S (length (l ++ [x]))) = Z.of_nat (S (length l)) + 1.
Proof. rewrite length_app. simpl. lia. Qed.

(** C2, amended: after a first successful post, posting again with the
    same review body and pull request number returns the same review
    identifier, or is rejected, or posts a second review under a new
    identifier, and the hosting service alone decides which: the tool
    has no guard of its own.  The second invocation fetches the pull
    request and calls [create_review] once, with event COMMENT; it
    succeeds exactly with what that call returns and stores, and is
    rejected exactly when the fetch or that call fails.  So it returns
    the first confirmation and stores nothing more exactly when the
    service answers the repeated [create_review] that way, which is
    what a deduplicating service does; on a service that creates a
    review per call, two posts to a pull request it holds always store
    two reviews with consecutive identifiers.  A call of the posting
    tool never changes the dict of shared state. *)
Theorem post_review_repeated {R : Type} `{!Hosting R}
    (repo repo1 : R) (pr_number : Z) (comment : string) (v : value) :
  post_review_to_github repo pr_number comment = Ok (repo1, v) →
  (∀ repo2 v2,
     post_review_to_github repo1 pr_number comment = Ok (repo2, v2) ↔
     ∃ pr review,
       get_pull repo1 pr_number = Ok pr ∧
       create_review repo1 pr comment "COMMENT" = Ok (repo2, review) ∧
       v2 = confirmation review) ∧
  (∀ e,
     post_review_to_github repo1 pr_number comment = Raise e ↔
     get_pull repo1 pr_number = Raise e ∨
     ∃ pr, get_pull repo1 pr_number = Ok pr ∧
           create_review repo1 pr comment "COMMENT" = Raise e) ∧
  (post_review_to_github repo1 pr_number comment = Ok (repo1, v) ↔
   ∃ pr review,
     get_pull repo1 pr_number = Ok pr ∧
     create_review repo1 pr comment "COMMENT" = Ok (repo1, review) ∧
     v = confirmation review) ∧
  (deduplicates R → post_review_to_github repo1 pr_number comment = Ok (repo1, v)) ∧
  (∀ (s : store) n c pr,
     store_get_pull s n = Ok pr →
     ∃ r1 r2 i,
       post_review_to_github {| fresh_store := s |} n c =
         Ok (r1, VDict [("status", VStr "success"); ("review_id", VInt i)]) ∧
       post_review_to_github r1 n c =
         Ok (r2, VDict [("status", VStr "success"); ("review_id", VInt (i + 1))]) ∧
       reviews (fresh_store r2) =
         (reviews s ++ [posted_comment (github.number pr) c i;
                        posted_comment (github.number pr) c (i + 1)])%list) ∧
  (∀ (state state' : gmap string value) (r r' : R) n c out,
     call_fn (fn post_review_tool) (kw_pr_number_comment n c) state r =
       Ok (out, state', r') →
     state' = state).
Proof.
  intros Hpost.
  assert (∀ (r r2 : R) v2,
            post_review_to_github r pr_number comment = Ok (r2, v2) ↔
            ∃ pr review,
              get_pull r pr_number = Ok pr ∧
              create_review r pr comment "COMMENT" = Ok (r2, review) ∧
              v2 = confirmation review) as Hexact.
  { intros r r2 v2. unfold post_review_to_github. split.
    - intros Hv. apply bind_Ok_inv in Hv as (pr & Hpr & Hv).
      apply bind_Ok_inv in Hv as ([r' review] & Hcreate & Hv).
      injection Hv as <- <-. by exists pr, review.
    - intros (pr & review & Hpr & Hcreate & ->). rewrite Hpr. simpl.
      by rewrite Hcreate. }
  split; [intros repo2 v2; apply Hexact|].
  split; [|split; [apply Hexact|split; [|split]]].
  - intros e. unfold post_review_to_github. rewrite bind_Raise_iff. split.
    + intros [?|(pr & Hpr & Hrest)]; [by left|]. right. exists pr. split; [done|].
      apply bind_Raise_iff in Hrest as [?|([r review] & _ & ?)]; [done | discriminate].
    + intros [?|(pr & Hpr & Hc)]; [by left|]. right. exists pr. split; [done|].
      apply bind_Raise_iff. by left.
  - intros Hdedup. apply Hexact in Hpost as (pr & review & Hpr & Hcreate & ->).
    destruct (Hdedup _ _ _ _ _ _ Hcreate) as [Hagain Hpulls].
    apply Hexact. exists pr, review. by rewrite Hpulls.
  - intros s n c pr Hpr.
    exists {| fresh_store := (store_add_review s pr c "COMMENT").1 |}.
    exists {| fresh_store :=
                (store_add_review (store_add_review s pr c "COMMENT").1
                   pr c "COMMENT").1 |}.
    exists (Z.of_nat (S (length (reviews s)))).
    split; [|split].
    + unfold post_review_to_github. simpl. by rewrite Hpr.
    + unfold post_review_to_github. simpl. unfold store_get_pull in *. simpl.
      destruct (List.find _ (pulls s)) as [p|]; [|discriminate].
      injection Hpr as ->. simpl. by rewrite next_review_id.
    + simpl. rewrite next_review_id, <- app_assoc. reflexivity.
  - intros state state' r r' n c out Hcall. simpl in Hcall.
    apply bind_Ok_inv in Hcall as ([r2 v2] & _ & Hv). by injection Hv as _ <- _.
Qed.

Lemma post_review_repeated_witness :
  ∃ r1 v,
    post_review_to_github host1_dedup 1 "Looks good" = Ok (r1, v) ∧
    post_review_to_github r1 1 "Looks good" = Ok (r1, v) ∧
    v = VDict [("status", VStr "success"); ("review_id", VInt 1)].
Proof.
  eexists _, _. split; [reflexivity|]. split; [|reflexivity].
  eassert (post_review_to_github host1_dedup 1 "Looks good" = Ok (_, _)) as Hfirst
    by reflexivity.
  destruct (post_review_repeated _ _ _ _ _ Hfirst) as (_ & _ & _ & Hdedup & _).
  exact (Hdedup dedup_host_deduplicates).
Defined.

(** ** The router: counter, ceiling and termination *)

Lemma find_agent_Some (wf : AgentWorkflow) (n : string) (a : FunctionAgent) :
  find_agent wf n = Some a → a ∈ agents wf ∧ name a = n.
Proof.
  unfold find_agent. intros Hfind. apply find_some in Hfind as [Hin Hname].
  split; [by apply list_elem_of_In | by apply bool_decide_eq_true in Hname].
Qed.

Lemma find_agent_configured (wf : AgentWorkflow) (n : string) :
  n ∈ agent_names wf → ∃ a, find_agent wf n = Some a.
Proof.
  unfold agent_names, find_agent. intros Hn.
  apply list_elem_of_fmap in Hn as (a & -> & Ha).
  destruct (List.find _ (agents wf)) as [b|] eqn:Hfind; [by exists b|].
  apply list_elem_of_In in Ha.
  pose proof (find_none _ _ Hfind a Ha) as Hno. simpl in Hno.
  by rewrite bool_decide_eq_true_2 in Hno.
Qed.

Lemma find_tool_Some (a : FunctionAgent) (n : string) (t : FunctionTool) :
  find_tool a n = Some t → t ∈ tools a ∧ tool_name t = n.
Proof.
  unfold find_tool. intros Hfind. apply find_some in Hfind as [Hin Hname].
  split; [by apply list_elem_of_In | by apply bool_decide_eq_true in Hname].
Qed.

Section router_facts.
Context {R : Type} `{!Hosting R}.
Variable wf : AgentWorkflow.
Variable ceiling : nat.
Variable llm : FunctionAgent → RunContext → Turn.

Lemma apply_calls_error a calls log (repo repo' : R) e :
  apply_calls a calls log repo = inl (e, repo') →
  (∃ tool, e = CapabilityViolationError (name a) tool) ∨
  (∃ tool cause, e = ToolExecutionError tool cause).
Proof.
  revert log repo. induction calls as [|c rest IH]; intros log repo; simpl.
  - discriminate.
  - destruct (find_tool a (call_name c)) as [t|]; [|intros [= <- _]; eauto].
    destruct (call_fn (fn t) (call_kwargs c) (call_state c) repo)
      as [[[out s'] r']|cause].
    + apply IH.
    + intros [= <- _]. eauto.
Qed.


Lemma step_Continue ctx (repo : R) ctx' repo' :
  step wf ceiling llm ctx repo = Continue ctx' repo' →
  turn_counter ctx' = S (turn_counter ctx) ∧
  (turn_counter ctx' ≤ ceiling)%nat ∧
  ∃ a, find_agent wf (current_agent ctx) = Some a ∧
       current_agent ctx' ∈ can_handoff_to a.
Proof.
  unfold step. destruct (find_agent wf (current_agent ctx)) as [a|]; [|discriminate].
  destruct (apply_calls _ _ _ _) as [[e r]|[l r]]; [discriminate|].
  destruct (handoff _) as [target|]; [|by destruct (terminal_output _)].
  case_bool_decide as Hperm; [|discriminate].
  case_bool_decide as Hlim; [discriminate|].
  intros [= <- <-]. simpl. split; [done|]. split; [lia|]. by exists a.
Qed.

Lemma step_TurnLimit ctx (repo : R) k ctx' repo' :
  step wf ceiling llm ctx repo = Failed (TurnLimitExceededError k) ctx' repo' →
  (turn_counter ctx ≤ ceiling)%nat →
  k = S ceiling ∧ turn_counter ctx' = S ceiling.
Proof.
  unfold step. destruct (find_agent wf (current_agent ctx)) as [a|]; [|discriminate].
  destruct (apply_calls _ _ _ _) as [[e r]|[l r]] eqn:Hcalls.
  - intros [= -> _ _]. by apply apply_calls_error in Hcalls as [[? ?]|(? & ? & ?)].
  - destruct (handoff _) as [target|]; [|by destruct (terminal_output _)].
    case_bool_decide as Hperm; [|discriminate].
    case_bool_decide as Hlim; [|discriminate].
    intros [= <- <- _] Hle. simpl. lia.
Qed.

Lemma reachable_counter_le ctx (repo0 repo : R) :
  reachable wf ceiling llm ctx repo0 repo → (turn_counter ctx ≤ ceiling)%nat.
Proof.
  induction 1 as [|ctx repo0 repo ctx' repo' _ _ Hstep]; simpl; [lia|].
  by apply step_Continue in Hstep as (_ & Hle & _).
Qed.

Lemma reachable_configured ctx (repo0 repo : R) :
  targets_configured wf = true →
  root_agent wf ∈ agent_names wf →
  reachable wf ceiling llm ctx repo0 repo →
  current_agent ctx ∈ agent_names wf.
Proof.
  intros Htargets Hroot. induction 1 as [|ctx repo0 repo ctx' repo' _ _ Hstep].
  - exact Hroot.
  - apply step_Continue in Hstep as (_ & _ & a & Hfind & Htarget).
    apply find_agent_Some in Hfind as [Ha _].
    by apply (targets_configured_sound wf Htargets a).
Qed.


Lemma run_turns_total fuel ctx (repo : R) :
  (turn_counter ctx ≤ ceiling)%nat →
  (ceiling < turn_counter ctx + fuel)%nat →
  ∃ res, run_turns wf ceiling llm fuel ctx repo = Some res.
Proof.
  revert ctx repo. induction fuel as [|fuel IH]; intros ctx repo Hle Hfuel; [lia|].
  simpl. destruct (step wf ceiling llm ctx repo) as [ctx' repo'| |] eqn:Hstep; eauto.
  apply step_Continue in Hstep as (Hcount & Hle' & _).
  apply IH; lia.
Qed.

Lemma run_turns_more fuel fuel' ctx (repo : R) res :
  run_turns wf ceiling llm fuel ctx repo = Some res →
  (fuel ≤ fuel')%nat →
  run_turns wf ceiling llm fuel' ctx repo = Some res.
Proof.
  revert fuel' ctx repo. induction fuel as [|fuel IH]; intros fuel' ctx repo;
    [discriminate|].
  intros Hrun Hle. destruct fuel' as [|fuel']; [lia|]. simpl in *.
  destruct (step wf ceiling llm ctx repo); [|done..]. apply IH; [done | lia].
Qed.

(** The result of a run is what the router answers at the last context
    the run reaches. *)
Lemma run_turns_last fuel ctx (repo0 repo : R) res :
  reachable wf ceiling llm ctx repo0 repo →
  run_turns wf ceiling llm fuel ctx repo = Some res →
  ∃ ctx1 repo1,
    reachable wf ceiling llm ctx1 repo0 repo1 ∧
    match step wf ceiling llm ctx1 repo1 with
    | Continue _ _ => False
    | Terminated output state log repo' => res = Finished output state log repo'
    | Failed e ctx' repo' => res = Aborted e ctx' repo'
    end.
Proof.
  revert ctx repo. induction fuel as [|fuel IH]; intros ctx repo Hreach; [discriminate|].
  simpl. destruct (step wf ceiling llm ctx repo) as [ctx' repo'| |] eqn:Hstep.
  - apply IH. by eapply reachable_step.
  - intros [= <-]. exists ctx, repo. by rewrite Hstep.
  - intros [= <-]. exists ctx, repo. by rewrite Hstep.
Qed.

End router_facts.

(** C1: in every run of the workflow, under any language model and any
    ceiling, each turn after which the run goes on raises the turn
    counter by exactly one and the counter of a running context never
    exceeds the ceiling; the run always ends, within ceiling + 1 router
    steps, finished or aborted, and more fuel does not change its
    result; an abort by [TurnLimitExceededError] happens exactly when
    the counter passes the ceiling; and a model whose agents only ever
    hand off to one another is cut off with [TurnLimitExceededError]. *)
Theorem turn_counter_bounded_run {R : Type} `{!Hosting R} (ceiling : nat)
    (llm : string → FunctionAgent → RunContext → Turn) (query : string) (repo : R) :
  (∀ ctx r ctx' r',
     step workflow_agent ceiling (llm query) ctx r = Continue ctx' r' →
     turn_counter ctx' = S (turn_counter ctx)) ∧
  (∀ ctx r,
     reachable workflow_agent ceiling (llm query) ctx repo r →
     (turn_counter ctx ≤ ceiling)%nat) ∧
  (∃ res,
     run ceiling llm query repo = Some res ∧
     (∀ fuel, (S ceiling ≤ fuel)%nat →
        run_turns workflow_agent ceiling (llm query) fuel
          (init_ctx workflow_agent) repo = Some res) ∧
     (∀ k ctx r, res = Aborted (TurnLimitExceededError k) ctx r →
        k = S ceiling ∧ turn_counter ctx = S ceiling)) ∧
  ((∀ a ctx, a ∈ agents workflow_agent →
      tool_calls (llm query a ctx) = [] ∧
      ∃ target, handoff (llm query a ctx) = Some target ∧ target ∈ can_handoff_to a) →
   ∃ ctx r,
     run ceiling llm query repo = Some (Aborted (TurnLimitExceededError (S ceiling)) ctx r) ∧
     turn_counter ctx = S ceiling).
Proof.
  assert (∃ res, run ceiling llm query repo = Some res) as [res Hres].
  { apply run_turns_total; simpl; lia. }
  destruct (run_turns_last _ _ _ _ _ _ _ res (reachable_init _ _ _ repo) Hres)
    as (ctx1 & repo1 & Hreach & Hlast).
  pose proof (reachable_counter_le _ _ _ _ _ _ Hreach) as Hle.
  split; [|split; [|split]].
  - intros ctx r ctx' r' Hstep. by apply step_Continue in Hstep as [? _].
  - intros ctx r. apply reachable_counter_le.
  - exists res. split; [exact Hres|]. split.
    + intros fuel Hfuel. by apply (run_turns_more _ _ _ (S ceiling)).
    + intros k ctx r ->.
      destruct (step workflow_agent ceiling (llm query) ctx1 repo1) eqn:Hstep;
        [done|done|]. injection Hlast as <- <- <-.
      by apply step_TurnLimit in Hstep.
  - intros Hcycle.
    pose proof (reachable_configured _ _ _ _ _ _ workflow_targets_configured
                  workflow_root_configured Hreach) as Hcur.
    apply find_agent_configured in Hcur as [a Hfind].
    destruct (find_agent_Some _ _ _ Hfind) as [Ha _].
    destruct (Hcycle a ctx1 Ha) as (Hcalls & target & Hhand & Hperm).
    unfold step in Hlast. rewrite Hfind in Hlast. simpl in Hlast.
    rewrite Hcalls, Hhand in Hlast. simpl in Hlast.
    rewrite (bool_decide_eq_true_2 _ Hperm) in Hlast.
    case_bool_decide as Hlim; [|done]. subst res.
    replace (S (turn_counter ctx1)) with (S ceiling) in * by lia.
    eexists _, _. split; [exact Hres|]. simpl. lia.
Qed.

Lemma turn_counter_bounded_run_witness :
  ∃ ctx r,
    run 3 llm_ping_pong "Write a review for PR number 1" host1 =
      Some (Aborted (TurnLimitExceededError 4) ctx r) ∧
    turn_counter ctx = 4%nat.
Proof.
  destruct (turn_counter_bounded_run 3 llm_ping_pong "Write a review for PR number 1" host1)
    as (_ & _ & _ & Hcycle).
  apply Hcycle. intros a ctx Ha. simpl in Ha. rewrite !elem_of_cons in Ha.
  destruct Ha as [-> | [-> | [-> | Ha]]]; [| | |by apply elem_of_nil in Ha].
  - split; [reflexivity|]. exists "CommentorAgent". split; [reflexivity|]. set_solver.
  - split; [reflexivity|]. exists "ReviewAndPostingAgent". split; [reflexivity|]. set_solver.
  - split; [reflexivity|]. exists "CommentorAgent". split; [reflexivity|]. set_solver.
Defined.

Example ping_pong_is_cut_off :
  ∃ ctx,
    run 3 llm_ping_pong "Write a review for PR number 1" host1 =
      Some (Aborted (TurnLimitExceededError 4) ctx host1) ∧
    current_agent ctx = "ReviewAndPostingAgent" ∧ turn_counter ctx = 4%nat.
Proof. eexists. split; [reflexivity|]. split; reflexivity. Qed.

(** ** A failing read and the draft *)

Section shared_state.
Context {R : Type} `{!Hosting R}.
Variable wf : AgentWorkflow.
Variable ceiling : nat.
Variable llm : FunctionAgent → RunContext → Turn.

(** A turn leaves the shared state of the run as it found it: the state
    tools write into the dict of their own call. *)
Lemma step_Continue_state ctx (repo : R) ctx' repo' :
  step wf ceiling llm ctx repo = Continue ctx' repo' →
  shared_state ctx' = shared_state ctx.
Proof.
  unfold step. destruct (find_agent wf (current_agent ctx)) as [a|]; [|discriminate].
  destruct (apply_calls _ _ _ _) as [[e r]|[l r]]; [discriminate|].
  destruct (handoff _) as [target|]; [|by destruct (terminal_output _)].
  case_bool_decide; [|discriminate]. case_bool_decide; [discriminate|].
  by intros [= <- _].
Qed.


End shared_state.




(** Even when the drafting agent called add_comment_to_state before the
    read fails, the draft is in the dict of that call, which the log
    keeps as the call's output, and the shared state of the run has
    draft_comment empty at the abort. *)
Example draft_call_leaves_shared_state :
  ∃ ctx r,
    run 5 llm_draft_first "Write a review for PR number 1" host_empty =
      Some (Aborted (ToolExecutionError "get_pr_details" (GithubException 404 "Not Found"))
                    ctx r) ∧
    current_agent ctx = "ContextAgent" ∧
    shared_state ctx !! "draft_comment" = Some (VStr "") ∧
    ToolCompleted "add_comment_to_state"
      (out_state (add_comment_to_state (initial_state workflow_agent)
                    (VStr "Thanks for the fix"))) ∈ event_log ctx.
Proof.
  eexists _, _. split; [reflexivity|]. split; [reflexivity|]. split; [reflexivity|].
  simpl. do 3 apply list_elem_of_further. apply list_elem_of_here.
Qed.

(** ** The first turn of a run *)

(** Whatever the language model decides, a run that gets past its
    first turn has handed control from ReviewAndPostingAgent to
    CommentorAgent with no context gathered and no draft saved in the
    shared state. *)
Lemma first_turn_delegates {R : Type} `{!Hosting R} ceiling llm (repo : R) ctx' repo' :
  step workflow_agent ceiling llm (init_ctx workflow_agent) repo = Continue ctx' repo' →
  current_agent (init_ctx workflow_agent) = name review_and_posting_agent ∧
  current_agent ctx' = "CommentorAgent" ∧
  shared_state ctx' !! "gathered_contexts" = Some (VStr "") ∧
  shared_state ctx' !! "draft_comment" = Some (VStr "").
Proof.
  intros Hstep. split; [reflexivity|].
  rewrite (step_Continue_state _ _ _ _ _ _ _ Hstep).
  apply step_Continue in Hstep as (_ & _ & a & Hfind & Hperm).
  injection Hfind as <-. split; [|by split].
  simpl in Hperm. rewrite elem_of_cons in Hperm.
  destruct Hperm as [-> | Hperm]; [reflexivity | by apply elem_of_nil in Hperm].
Qed.

(** * Further properties of the code *)

(** ** How calls of the state tools compose *)

(** X1: calling a state tool twice keeps only the second value, and
    writing back the value a field already holds leaves the dict as it
    is. *)
Theorem state_tools_last_write_wins (state : gmap string value) (v1 v2 : value) :
  add_context_to_state (add_context_to_state state v1) v2 = add_context_to_state state v2 ∧
  add_comment_to_state (add_comment_to_state state v1) v2 = add_comment_to_state state v2 ∧
  add_final_review_to_state (add_final_review_to_state state v1) v2 =
    add_final_review_to_state state v2 ∧
  (state !! "gathered_contexts" = Some v1 → add_context_to_state state v1 = state) ∧
  (state !! "draft_comment" = Some v1 → add_comment_to_state state v1 = state) ∧
  (state !! "final_review_comment" = Some v1 → add_final_review_to_state state v1 = state).
Proof.
  unfold add_context_to_state, add_comment_to_state, add_final_review_to_state.
  repeat split; first [apply insert_insert_eq | apply insert_id].
Qed.

(** X2: calls of two different state tools can be swapped: the dict
    after both calls does not depend on their order. *)
Theorem state_tools_commute (state : gmap string value) (a b c : value) :
  add_context_to_state (add_comment_to_state state b) a =
    add_comment_to_state (add_context_to_state state a) b ∧
  add_context_to_state (add_final_review_to_state state c) a =
    add_final_review_to_state (add_context_to_state state a) c ∧
  add_comment_to_state (add_final_review_to_state state c) b =
    add_final_review_to_state (add_comment_to_state state b) c.
Proof.
  unfold add_context_to_state, add_comment_to_state, add_final_review_to_state.
  repeat split; by apply insert_insert_ne.
Qed.

Lemma do_writes_snoc (state : gmap string value) ws w :
  do_writes state (ws ++ [w]) = do_write (do_writes state ws) w.
Proof. unfold do_writes. by rewrite foldl_app. Qed.

Lemma do_write_lookup (state : gmap string value) w k :
  do_write state w !! k =
  if decide (written_key w = k) then Some (written_value w) else state !! k.
Proof.
  destruct w; simpl;
    unfold add_context_to_state, add_comment_to_state, add_final_review_to_state;
    case_decide as Hk; subst; by rewrite ?lookup_insert_eq, ?lookup_insert_ne.
Qed.

(** X3: after any sequence of state-tool calls every field holds the
    value of the last call that wrote it, and a field no call wrote
    holds what it held before. *)
Theorem do_writes_lookup (state : gmap string value) (ws : list state_write) (k : string) :
  do_writes state ws !! k =
  match last_written k ws with
  | Some v => Some v
  | None => state !! k
  end.
Proof.
  unfold last_written. induction ws as [|w ws IH] using rev_ind; [done|].
  rewrite do_writes_snoc, do_write_lookup, filter_app, filter_cons, filter_nil.
  case_decide as Hk.
  - by rewrite last_snoc.
  - by rewrite app_nil_r.
Qed.

(** X4: the three fields the workflow declares are the only keys any
    sequence of state-tool calls leaves in the initial state: calls
    neither add a key to it nor remove one. *)
Theorem do_writes_keep_declared_fields (ws : list state_write) :
  dom (do_writes (initial_state workflow_agent) ws) =
    ({["gathered_contexts"; "draft_comment"; "final_review_comment"]} : gset string).
Proof.
  induction ws as [|w ws IH] using rev_ind.
  - simpl. unfold do_writes. simpl. rewrite !dom_insert_L, dom_empty_L. set_solver.
  - rewrite do_writes_snoc.
    destruct w; cbn [do_write];
      unfold add_context_to_state, add_comment_to_state, add_final_review_to_state;
      rewrite dom_insert_L, IH; set_solver.
Qed.

(** ** Failures of the hosting service *)

(** X5: a tool that calls the hosting service fails exactly when one of
    its calls to the service fails, and then with the very exception the
    service raised: nothing is caught, wrapped or replaced.  For
    [get_pr_details] that is a failure to fetch the pull request or,
    once it is fetched, to list its commits; for [get_commit_details] a
    failure to fetch the commit; for the posting tool a failure to
    fetch the pull request or, once it is fetched, to create the
    review. *)
Theorem tools_raise_hosting_error {R : Type} `{!Hosting R} (repo : R) (e : exn) :
  (∀ pr_number,
     get_pr_details repo pr_number = Raise e ↔
     get_pull repo pr_number = Raise e ∨
     ∃ pr, get_pull repo pr_number = Ok pr ∧ get_commits repo pr = Raise e) ∧
  (∀ head_sha,
     get_commit_details repo head_sha = Raise e ↔ get_commit repo head_sha = Raise e) ∧
  (∀ pr_number comment,
     post_review_to_github repo pr_number comment = Raise e ↔
     get_pull repo pr_number = Raise e ∨
     ∃ pr, get_pull repo pr_number = Ok pr ∧
           create_review repo pr comment "COMMENT" = Raise e).
Proof.
  split; [|split].
  - intros n. unfold get_pr_details. rewrite bind_Raise_iff.
    split.
    + intros [?|(pr & Hpr & Hrest)]; [by left|]. right. exists pr. split; [done|].
      apply bind_Raise_iff in Hrest as [?|(commits & _ & ?)]; [done | discriminate].
    + intros [?|(pr & Hpr & Hcs)]; [by left|]. right. exists pr. split; [done|].
      apply bind_Raise_iff. by left.
  - intros h. unfold get_commit_details. rewrite bind_Raise_iff.
    split; [intros [?|(c & _ & ?)]; [done | discriminate] | by left].
  - intros n comment. unfold post_review_to_github. rewrite bind_Raise_iff.
    split.
    + intros [?|(pr & Hpr & Hpost)]; [by left|]. right. exists pr. split; [done|].
      apply bind_Raise_iff in Hpost as [?|([r review] & _ & ?)]; [done | discriminate].
    + intros [?|(pr & Hpr & Hc)]; [by left|]. right. exists pr. split; [done|].
      apply bind_Raise_iff. by left.
Qed.

(** A pull request that is found but whose commits cannot be listed:
    [get_pr_details] fails with the exception of the listing. *)
Example get_pr_details_commits_fail :
  get_pull {| fresh_store := store_no_commits |} 1 = Ok pr1 ∧
  get_pr_details {| fresh_store := store_no_commits |} 1 =
    Raise (GithubException 404 "Not Found").
Proof. split; reflexivity. Qed.

(** ** Who owns which tool *)

Ltac agent_cases H :=
  try unfold tool_registry in H; simpl in H; rewrite ?elem_of_cons in H;
  repeat (destruct H as [-> | H]); [..|by apply elem_of_nil in H].

Ltac not_in_list H :=
  simpl in H; rewrite ?elem_of_cons in H;
  repeat (let E := fresh in destruct H as [E | H]; [discriminate E|]);
  by apply elem_of_nil in H.

Ltac in_list :=
  simpl; unfold tool_registry;
  repeat first [apply list_elem_of_here | apply list_elem_of_further].

(** X6: the six wrapped tools have six different names; every tool is
    given to exactly one agent and no agent has a tool that was not
    wrapped; the two read tools belong to ContextAgent alone and the
    posting tool to ReviewAndPostingAgent alone. *)
Theorem every_tool_has_one_owner :
  NoDup (tool_name <$> tool_registry) ∧
  (∀ t, t ∈ tool_registry ↔ ∃ a, a ∈ agents workflow_agent ∧ t ∈ tools a) ∧
  (∀ t a b,
     a ∈ agents workflow_agent → b ∈ agents workflow_agent →
     t ∈ tools a → t ∈ tools b → a = b) ∧
  (∀ t a, a ∈ agents workflow_agent → t ∈ tools a →
     (is_read_fn (fn t) = true → a = context_agent) ∧
     (fn t = fn_post_review_to_github → a = review_and_posting_agent)).
Proof.
  split; [by apply (bool_decide_unpack _)|]. split; [|split].
  - intros t. split.
    + intros Ht. agent_cases Ht;
        [exists context_agent | exists context_agent | exists context_agent
        | exists commentor_agent | exists review_and_posting_agent
        | exists review_and_posting_agent];
        split; in_list.
    + intros (a & Ha & Ht). agent_cases Ha; agent_cases Ht; in_list.
  - intros t a b Ha Hb Hta Htb.
    agent_cases Ha; agent_cases Hb; try reflexivity;
      agent_cases Hta; not_in_list Htb.
  - intros t a Ha Ht. agent_cases Ha; agent_cases Ht;
      split; intros Hfn; first [reflexivity | discriminate].
Qed.

(** ** The shape of the handoff graph *)

(** X7: handoffs go both ways or not at all (an agent may hand off to
    another exactly when that one may hand back), no agent hands off to
    itself, every handoff starts or ends at CommentorAgent, and the
    agents control can reach from the root are exactly the three
    configured ones. *)
Theorem handoff_graph_shape :
  (∀ a b, a ∈ agents workflow_agent → b ∈ agents workflow_agent →
     (name b ∈ can_handoff_to a ↔ name a ∈ can_handoff_to b)) ∧
  (∀ a, a ∈ agents workflow_agent → name a ∉ can_handoff_to a) ∧
  (∀ a b, a ∈ agents workflow_agent → b ∈ agents workflow_agent →
     name b ∈ can_handoff_to a → a = commentor_agent ∨ b = commentor_agent) ∧
  (∀ n, hands_to workflow_agent n ↔ n ∈ agent_names workflow_agent).
Proof.
  split; [|split; [|split]].
  - intros a b Ha Hb. agent_cases Ha; agent_cases Hb;
      split; intros H; first [solve [in_list] | not_in_list H].
  - intros a Ha H. agent_cases Ha; not_in_list H.
  - intros a b Ha Hb H. agent_cases Ha; agent_cases Hb;
      first [by left | by right | not_in_list H].
  - intros n. split.
    + induction 1 as [|a target _ _ Ha Ht].
      * apply workflow_root_configured.
      * by apply (targets_configured_sound _ workflow_targets_configured a).
    + intros Hn. unfold agent_names in Hn.
      assert (hands_to workflow_agent "CommentorAgent") as Hcommentor.
      { apply (hands_to_next _ review_and_posting_agent);
          [apply hands_to_root | in_list | in_list]. }
      agent_cases Hn.
      * apply (hands_to_next _ commentor_agent); [exact Hcommentor | in_list | in_list].
      * exact Hcommentor.
      * apply hands_to_root.
Qed.

(** ** The query always names a pull request *)

Lemma append_eq_self (s p : string) : s +:+ p = s → p = "".
Proof.
  induction s as [|c s IH]; simpl; [done|]. intros [= Heq]. by apply IH.
Qed.

(** X8: whatever the environment holds, the pull request number the
    runner takes is never the empty string, so the query never ends
    after "PR number "; the query depends on PR_NUMBER alone; and
    exporting the number the runner took leaves the query as it is. *)
Theorem main_query_names_a_pr (environ : gmap string string) :
  main_pr_number environ ≠ "" ∧
  main_query environ ≠ "Write a review for PR number " ∧
  (∀ environ' : gmap string string,
     environ' !! "PR_NUMBER" = environ !! "PR_NUMBER" →
     main_query environ' = main_query environ) ∧
  main_query (<["PR_NUMBER" := main_pr_number environ]> environ) = main_query environ.
Proof.
  assert (main_pr_number environ ≠ "") as Hne.
  { unfold main_pr_number, or_default, getenv.
    destruct (environ !! "PR_NUMBER") as [s|]; [|done]. by case_decide. }
  split; [exact Hne|]. split; [|split].
  - unfold main_query. intros Heq. by apply append_eq_self in Heq.
  - intros environ' Hsame. unfold main_query, main_pr_number, getenv. by rewrite Hsame.
  - unfold main_query. f_equal. unfold main_pr_number at 1. unfold getenv.
    rewrite lookup_insert_eq. simpl. by rewrite decide_False.
Qed.

(** ** The runner's event loop *)

Lemma announced_app (l1 l2 : list stream.line) :
  announced (l1 ++ l2) = (announced l1 ++ announced l2)%list.
Proof. unfold announced. apply omap_app. Qed.

Lemma announced_print_event (ev : stream.event) : announced (print_event ev) = [].
Proof.
  unfold print_event. destruct (stream.class_of ev) as [content calls| | |]; try done.
  destruct content as [c|]; [case_decide|]; by destruct calls.
Qed.

Lemma handle_events_cons cur ev rest :
  handle_events cur (ev :: rest) =
  ((handle_events (handle_event cur ev).1 rest).1,
   ((handle_event cur ev).2 ++ (handle_events (handle_event cur ev).1 rest).2)%list).
Proof.
  simpl. destruct (handle_event cur ev) as [cur' printed]. simpl.
  by destruct (handle_events cur' rest).
Qed.

(** What one pass does, by whether the event announces a new agent. *)
Lemma handle_event_cases cur ev :
  (∃ n, stream.current_agent_name ev = Some n ∧ Some n ≠ cur ∧
        handle_event cur ev = (Some n, [stream.current_agent_line n])) ∨
  ((stream.current_agent_name ev = None ∨ stream.current_agent_name ev = cur) ∧
   handle_event cur ev = (cur, print_event ev)).
Proof.
  unfold handle_event. destruct (stream.current_agent_name ev) as [n|].
  - case_decide as Hn; [right | left]; eauto.
  - right. eauto.
Qed.

Lemma handle_events_announced events cur :
  (∀ n, head (announced (handle_events cur events).2) = Some n → Some n ≠ cur) ∧
  no_repeat (announced (handle_events cur events).2) ∧
  (∀ n, n ∈ announced (handle_events cur events).2 →
     ∃ ev, ev ∈ events ∧ stream.current_agent_name ev = Some n).
Proof.
  revert cur. induction events as [|ev rest IH]; intros cur.
  - simpl. split; [discriminate|]. split; [done|]. intros n Hn. by apply elem_of_nil in Hn.
  - rewrite handle_events_cons. cbn [snd]. rewrite announced_app.
    destruct (handle_event_cases cur ev) as [(m & Hname & Hm & ->)|[_ ->]]; cbn [fst snd].
    + destruct (IH (Some m)) as (Hhead & Hrep & Hin).
      change (announced [stream.current_agent_line m]) with [m]. split; [|split].
      * simpl. by intros n [= <-].
      * simpl. destruct (announced (handle_events (Some m) rest).2) as [|b l] eqn:Hl;
          [done|]. split; [|exact Hrep]. intros ->. by apply (Hhead b).
      * intros n Hn. simpl in Hn. apply elem_of_cons in Hn as [-> | Hn].
        -- exists ev. split; [apply list_elem_of_here | exact Hname].
        -- destruct (Hin n Hn) as (ev' & Hev' & Hn'). exists ev'.
           split; [by apply list_elem_of_further | exact Hn'].
    + rewrite announced_print_event. simpl.
      destruct (IH cur) as (Hhead & Hrep & Hin). split; [exact Hhead|].
      split; [exact Hrep|]. intros n Hn.
      destruct (Hin n Hn) as (ev' & Hev' & Hn'). exists ev'.
      split; [by apply list_elem_of_further | exact Hn'].
Qed.

(** X9: the loop never announces the same agent twice in a row, and
    every agent it announces is the [current_agent_name] of an event of
    the stream. *)
Theorem main_loop_announces_changes_only (events : list stream.event) :
  no_repeat (announced (main_loop events).2) ∧
  ∀ n, n ∈ announced (main_loop events).2 →
    ∃ ev, ev ∈ events ∧ stream.current_agent_name ev = Some n.
Proof.
  unfold main_loop. destruct (handle_events_announced events None) as (_ & Hrep & Hin).
  by split.
Qed.

Lemma handle_events_last_named events cur :
  (handle_events cur events).1 =
  match last (omap stream.current_agent_name events) with
  | Some n => Some n
  | None => cur
  end.
Proof.
  revert cur. induction events as [|ev rest IH]; intros cur; [done|].
  rewrite handle_events_cons. cbn [fst]. rewrite IH. simpl.
  destruct (handle_event_cases cur ev) as [(m & Hname & _ & ->)|[Hname ->]]; cbn [fst];
    destruct (stream.current_agent_name ev) as [n|] eqn:Hn; simpl.
  - injection Hname as ->. rewrite last_cons. by destruct (last _).
  - discriminate.
  - destruct Hname as [?|<-]; [discriminate|]. rewrite last_cons. by destruct (last _).
  - done.
Qed.

(** X10: when the stream ends the loop remembers the agent named by the
    last event that carries a name, and none when no event carries
    one. *)
Theorem main_loop_remembers_last_agent (events : list stream.event) :
  (main_loop events).1 = last (omap stream.current_agent_name events).
Proof.
  unfold main_loop. rewrite handle_events_last_named. by destruct (last _).
Qed.

Lemma handle_events_all_changes events (names : list string) cur :
  stream.current_agent_name <$> events = Some <$> names →
  no_repeat names →
  (∀ n, head names = Some n → Some n ≠ cur) →
  (handle_events cur events).2 = stream.current_agent_line <$> names.
Proof.
  revert names cur. induction events as [|ev rest IH]; intros names cur Hnames Hrep Hhead.
  - by destruct names.
  - destruct names as [|n names]; [discriminate|].
    injection Hnames as Hn Hrest.
    rewrite handle_events_cons. cbn [snd].
    unfold handle_event at 2. unfold handle_event at 1. rewrite Hn.
    rewrite decide_False by (by apply Hhead). cbn [fst snd]. simpl. f_equal.
    apply IH; [exact Hrest | |].
    + simpl in Hrep. destruct names; [done | by destruct Hrep].
    + intros m Hm [= ->]. simpl in Hrep. destruct names as [|b names]; [discriminate|].
      injection Hm as ->. by destruct Hrep.
Qed.

(** X11: an event that names another agent than the one remembered
    prints the announcement and nothing else, whatever it carries: on a
    stream in which every event names an agent and no two neighbours
    name the same one, the loop prints the announcements only, so the
    response text and the tool calls of those events never appear. *)
Theorem agent_change_hides_content (events : list stream.event) (names : list string) :
  stream.current_agent_name <$> events = Some <$> names →
  no_repeat names →
  (main_loop events).2 = stream.current_agent_line <$> names.
Proof.
  intros Hnames Hrep. unfold main_loop.
  apply handle_events_all_changes; [exact Hnames | exact Hrep | by intros n _].
Qed.

Lemma agent_change_hides_content_witness :
  (main_loop [output_event "CommentorAgent" "Here is the draft";
              output_event "ReviewAndPostingAgent" "Posted the review"]).2 =
  [stream.current_agent_line "CommentorAgent";
   stream.current_agent_line "ReviewAndPostingAgent"].
Proof.
  apply (agent_change_hides_content
           [output_event "CommentorAgent" "Here is the draft";
            output_event "ReviewAndPostingAgent" "Posted the review"]
           ["CommentorAgent"; "ReviewAndPostingAgent"]).
  - reflexivity.
  - simpl. split; [discriminate | exact I].
Defined.

(** The same response is printed when an earlier event already named
    the agent. *)
Example response_printed_after_announcement :
  (main_loop [output_event "ReviewAndPostingAgent" "";
              output_event "ReviewAndPostingAgent" "Posted the review"]).2 =
  [stream.current_agent_line "ReviewAndPostingAgent";
   stream.final_response_line "Posted the review"].
Proof. reflexivity. Qed.

Lemma print_event_bound (ev : stream.event) :
  (length (print_event ev) ≤ 2)%nat ∧ Forall printable (print_event ev).
Proof.
  unfold print_event. destruct (stream.class_of ev) as [content calls| | |];
    [|split; [simpl; lia | by repeat constructor]..].
  destruct content as [c|]; [case_decide|]; destruct calls; simpl;
    (split; [lia | by repeat constructor]).
Qed.

(** X12: each event makes the loop call [print] at most twice, so a
    stream of n events causes at most 2n [print] calls; and no [print]
    call shows an empty final response or an empty list of selected
    tools. *)
Theorem main_loop_output_bounded (events : list stream.event) :
  (∀ cur ev, length (handle_event cur ev).2 ≤ 2)%nat ∧
  (length (main_loop events).2 ≤ 2 * length events)%nat ∧
  Forall printable (main_loop events).2.
Proof.
  assert (∀ cur ev, length (handle_event cur ev).2 ≤ 2)%nat as Hone.
  { intros cur ev. destruct (print_event_bound ev) as [Hlen _].
    destruct (handle_event_cases cur ev) as [(m & _ & _ & ->)|[_ ->]];
      cbn [snd]; [simpl; lia | exact Hlen]. }
  split; [exact Hone|].
  unfold main_loop. generalize (@None string) as cur.
  induction events as [|ev rest IH]; intros cur; [by split|].
  rewrite handle_events_cons. cbn [snd]. rewrite length_app, Forall_app.
  destruct (IH (handle_event cur ev).1) as [Hlen Hall].
  pose proof (Hone cur ev) as Hlen1.
  destruct (print_event_bound ev) as [_ Hall1].
  split; [simpl length; lia|]. split; [|exact Hall].
  destruct (handle_event_cases cur ev) as [(m & _ & _ & ->)|[_ ->]]; cbn [snd];
    [by repeat constructor | exact Hall1].
Qed.

(** ** Which agent can change which field *)

(** X13: each field of the shared state can be changed by the tools of
    one agent only: a tool call that changes gathered_contexts is a call
    of a ContextAgent tool, one that changes draft_comment of a
    CommentorAgent tool, one that changes final_review_comment of a
    ReviewAndPostingAgent tool. *)
Theorem fields_have_one_writer {R : Type} `{!Hosting R}
    (a : FunctionAgent) (t : FunctionTool) (kw : kwargs)
    (state state' : gmap string value) (repo repo' : R) (out : tool_output) :
  a ∈ agents workflow_agent →
  t ∈ tools a →
  call_fn (fn t) kw state repo = Ok (out, state', repo') →
  (state' !! "gathered_contexts" ≠ state !! "gathered_contexts" → a = context_agent) ∧
  (state' !! "draft_comment" ≠ state !! "draft_comment" → a = commentor_agent) ∧
  (state' !! "final_review_comment" ≠ state !! "final_review_comment" →
   a = review_and_posting_agent).
Proof.
  intros Ha Ht Hcall.
  assert (∀ k, (fn t = fn_add_context_to_state → k ≠ "gathered_contexts") →
               (fn t = fn_add_comment_to_state → k ≠ "draft_comment") →
               (fn t = fn_add_final_review_to_state → k ≠ "final_review_comment") →
               state' !! k = state !! k) as Hframe.
  { intros k. apply (call_fn_frame _ _ _ _ _ _ _ _ Hcall). }
  agent_cases Ha; agent_cases Ht; repeat split; intros Hchanged;
    first [reflexivity
          | exfalso; apply Hchanged, Hframe; simpl; intros; discriminate].
Qed.

Lemma fields_have_one_writer_witness :
  add_comment_to_state (initial_state workflow_agent) (VStr "Thanks for the fix")
    !! "draft_comment" ≠ initial_state workflow_agent !! "draft_comment" ∧
  commentor_agent = commentor_agent.
Proof.
  assert (add_comment_to_state (initial_state workflow_agent) (VStr "Thanks for the fix")
            !! "draft_comment" ≠ initial_state workflow_agent !! "draft_comment") as Hne.
  { unfold add_comment_to_state. rewrite lookup_insert_eq. simpl. discriminate. }
  split; [exact Hne|].
  apply (fields_have_one_writer commentor_agent add_comment_tool
           (kw_draft_comment (VStr "Thanks for the fix"))
           (initial_state workflow_agent)
           (add_comment_to_state (initial_state workflow_agent)
              (VStr "Thanks for the fix"))
           host1 host1
           (out_state (add_comment_to_state (initial_state workflow_agent)
                         (VStr "Thanks for the fix")))).
  - in_list.
  - in_list.
  - reflexivity.
  - exact Hne.
Defined.
